(** * Anitabi-to-Tuxun: a shallow embedding of [main.py]

    The script fetches the points of a list of works from the Anitabi
    catalog, asks the Street View metadata endpoint for the panorama nearest
    to each point, pairs points and panoramas into records, deduplicates the
    records through a Python [set] and writes a CSV table and a list of
    viewer URLs.

    Python is dynamically typed: the values decoded from the two JSON
    responses are stored in the dataclasses unchecked.  They are modelled by
    [pyval]; every subscript, [.get], [len] and iteration is modelled with
    the exception it raises on a value of the wrong shape.  The network is an
    input of the model: each request is answered by an [http_result] chosen
    by the environment.  The two files are written through the UTF-8
    encoder, which refuses a lone surrogate.  Log lines are not
    modelled. *)

From Stdlib Require Import ZArith Ascii String.
From Stdlib Require Import Floats.PrimFloat Floats.SpecFloat Floats.FloatOps.
From stdpp Require Import base option list sorting strings.

Local Open Scope Z_scope.

(** ** Python values *)

(** The values [json.loads] produces.  A [dict] is kept as the list of its
    entries, looked up from the front; the keys of a decoded JSON object are
    strings.  A [str] is the sequence of its characters. *)
#[warnings="-register-all"]
Inductive pyval : Type :=
| PNone
| PBool (b : bool)
| PInt (z : Z)
| PFloat (f : float)
| PStr (s : string)
| PList (l : list pyval)
| PDict (d : list (string * pyval)).

(** The exceptions the script can meet; all of them derive from
    [Exception]. *)
Inductive exn : Type :=
| KeyError
| IndexError
| TypeError
| AttributeError
| HTTPStatusError
| TransportError
| JSONDecodeError
| UnicodeEncodeError.

(** The outcome of evaluating an expression: a value or a raised
    exception. *)
Inductive res (A : Type) : Type :=
| Ok (a : A)
| Raise (e : exn).
Arguments Ok {A} a.
Arguments Raise {A} e.

#[global] Instance res_ret : MRet res := λ A a, Ok a.
#[global] Instance res_bind : MBind res := λ A B f m,
  match m with
  | Ok a => f a
  | Raise e => Raise e
  end.

(** [try: body / except Exception: handler]. *)
Definition try_except {A} (body : res A) (handler : exn → res A) : res A :=
  match body with
  | Ok a => Ok a
  | Raise e => handler e
  end.

(** *** Dictionaries *)

Fixpoint dict_lookup (k : string) (d : list (string * pyval)) : option pyval :=
  match d with
  | [] => None
  | (k', v) :: d' => if String.eqb k' k then Some v else dict_lookup k d'
  end.

(** [v[k]] for a string key [k]. *)
Definition py_getitem (v : pyval) (k : string) : res pyval :=
  match v with
  | PDict d =>
      match dict_lookup k d with
      | Some x => Ok x
      | None => Raise KeyError
      end
  | _ => Raise TypeError
  end.

(** [v.get(k, default)]: only a [dict] has the method. *)
Definition py_get (v : pyval) (k : string) (dflt : pyval) : res pyval :=
  match v with
  | PDict d => Ok (default dflt (dict_lookup k d))
  | _ => Raise AttributeError
  end.

(** The characters of a string, each as a one-character [str]. *)
Fixpoint str_chars (s : string) : list pyval :=
  match s with
  | EmptyString => []
  | String c s' => PStr (String c EmptyString) :: str_chars s'
  end.

(** [v[i]] for a non-negative integer index [i].  A decoded JSON object has
    no integer key. *)
Definition py_index (v : pyval) (i : nat) : res pyval :=
  match v with
  | PList l =>
      match l !! i with
      | Some x => Ok x
      | None => Raise IndexError
      end
  | PStr s =>
      match str_chars s !! i with
      | Some x => Ok x
      | None => Raise IndexError
      end
  | PDict _ => Raise KeyError
  | _ => Raise TypeError
  end.

(** [len(v)]. *)
Definition py_len (v : pyval) : res nat :=
  match v with
  | PList l => Ok (length l)
  | PStr s => Ok (String.length s)
  | PDict d => Ok (length d)
  | _ => Raise TypeError
  end.

(** The items [for x in v] visits: the elements of a list, the characters of
    a string, the keys of a dictionary. *)
Definition py_iter (v : pyval) : res (list pyval) :=
  match v with
  | PList l => Ok l
  | PStr s => Ok (str_chars s)
  | PDict d => Ok (PStr <$> d.*1)
  | _ => Raise TypeError
  end.

(** *** Equality *)

(** [f == z] for a float [f] and an integer [z]: Python compares the two
    numbers exactly, so only a finite float of integral value can be
    equal. *)
Definition float_eq_int (f : float) (z : Z) : bool :=
  match Prim2SF f with
  | S754_zero _ => z =? 0
  | S754_finite s m e =>
      let v := if s then Z.neg m else Z.pos m in
      if 0 <=? e then z =? v * 2 ^ e else v =? z * 2 ^ (- e)
  | _ => false
  end.

Definition Z_of_bool (b : bool) : Z := if b then 1 else 0.

(** [a == b] when at least one side is [None], a number or a string.  The
    script never compares two containers: [data.get("status")] is compared
    with a string, and a panorama identifier is hashed before it is compared,
    which a list or a dictionary refuses. *)
Definition py_eq (a b : pyval) : bool :=
  match a, b with
  | PNone, PNone => true
  | PStr s, PStr t => String.eqb s t
  | PBool x, PBool y => Z_of_bool x =? Z_of_bool y
  | PBool x, PInt z | PInt z, PBool x => Z_of_bool x =? z
  | PBool x, PFloat f | PFloat f, PBool x => float_eq_int f (Z_of_bool x)
  | PInt x, PInt y => x =? y
  | PInt z, PFloat f | PFloat f, PInt z => float_eq_int f z
  | PFloat f, PFloat g => PrimFloat.eqb f g
  | _, _ => false
  end.

(** ** HTTP *)

(** What a response offers: its status code and what [response.json()]
    returns or raises. *)
Record http_response : Type := mkResponse {
  status_code : Z;
  json : res pyval
}.

(** [client.get(url)] returns a response or raises a transport error. *)
Definition http_result : Type := res http_response.

(** [response.raise_for_status()]: only a 2xx response passes. *)
Definition raise_for_status (r : http_response) : res unit :=
  if (200 <=? status_code r) && (status_code r <=? 299) then Ok tt
  else Raise HTTPStatusError.

(** ** The dataclasses *)

Record Point : Type := mkPoint {
  lat : pyval;
  lng : pyval
}.

Record AnitabiPoint : Type := mkAnitabiPoint {
  name : pyval;
  geo : Point
}.

Record GooglePanoPoint : Type := mkGooglePanoPoint {
  pano_geo : Point;
  pano_id : pyval
}.

(** The class [Record] of the script ([Record] is a keyword here). *)
Record Rec : Type := mkRecord {
  anitabi_point : AnitabiPoint;
  google_pano_point : GooglePanoPoint
}.

(** ** Code that updates a list in place *)

(** A computation over a mutable store [S] that may raise; what was written
    to the store before the exception stays written. *)
Definition stateful (S A : Type) : Type := S → S * res A.

#[global] Instance stateful_ret {S} : MRet (stateful S) := λ A a s, (s, Ok a).
#[global] Instance stateful_bind {S} : MBind (stateful S) := λ A B f m s,
  match m s with
  | (s', Ok a) => f a s'
  | (s', Raise e) => (s', Raise e)
  end.

Definition lift {S A} (r : res A) : stateful S A := λ s, (s, r).

(** [results.append(x)]. *)
Definition append {A} (x : A) : stateful (list A) unit := λ s, (s ++ [x], Ok tt).

(** [for x in items: body]. *)
Fixpoint for_each {S A} (body : A → stateful S unit) (items : list A)
  : stateful S unit :=
  match items with
  | [] => mret tt
  | x :: rest => body x ≫= λ _, for_each body rest
  end.

Definition stateful_try {S A} (body : stateful S A) (handler : exn → stateful S A)
  : stateful S A := λ s,
  match body s with
  | (s', Ok a) => (s', Ok a)
  | (s', Raise e) => handler e s'
  end.

(** ** Catalog client *)

(** The body of the loop of [fetch_and_parse_points]. *)
Definition parse_point (point : pyval) : stateful (list AnitabiPoint) unit :=
  geo ← lift (py_getitem point "geo");
  lat ← lift (py_index geo 0);
  lng ← lift (py_index geo 1);
  name ← lift (py_get point "name" PNone);
  append (mkAnitabiPoint name (mkPoint lat lng)).

(** The [try] block of [fetch_and_parse_points]; [reply] is the outcome of
    [client.get(url)]. *)
Definition fetch_body (reply : http_result) : stateful (list AnitabiPoint) unit :=
  response ← lift reply;
  _ ← lift (raise_for_status response);
  data ← lift (json response);
  points ← lift (py_get data "points" (PList []));
  _ ← lift (py_len points);
  items ← lift (py_iter points);
  for_each parse_point items.

(** [fetch_and_parse_points]: [results] is created before the [try], both
    handlers only log, and [results] is returned whatever happened. *)
Definition fetch_and_parse_points (reply : http_result) : list AnitabiPoint :=
  let results := [] in
  let handler (e : exn) : stateful (list AnitabiPoint) unit :=
    match e with
    | HTTPStatusError => mret tt
    | _ => mret tt
    end in
  (stateful_try (fetch_body reply) handler results).1.

(** ** Panorama resolver *)

(** The [try] block of [get_google_pano]; [reply] is the outcome of
    [await client.get(metadata_url, params=params)] and [p] the requested
    point. *)
Definition pano_body (reply : http_result) (p : Point) : res (option GooglePanoPoint) :=
  resp ← reply;
  _ ← raise_for_status resp;
  data ← json resp;
  status ← py_get data "status" PNone;
  if py_eq status (PStr "OK") then
    pano_id ← py_getitem data "pano_id";
    location ← py_getitem data "location";
    real_lat ← py_get location "lat" (lat p);
    real_lng ← py_get location "lng" (lng p);
    mret (Some (mkGooglePanoPoint (mkPoint real_lat real_lng) pano_id))
  else
    mret None.

Definition get_google_pano (reply : http_result) (p : Point)
  : res (option GooglePanoPoint) :=
  try_except (pano_body reply p) (λ _, mret None).

(** ** Batch orchestrator *)

(** [asyncio.gather] over the tasks, awaited: the results in the order of the tasks;
    an exception of a task is raised to the caller. *)
Fixpoint gather {A} (tasks : list (res A)) : res (list A) :=
  match tasks with
  | [] => mret []
  | t :: rest => x ← t; xs ← gather rest; mret (x :: xs)
  end.

(** The body of the loop over [zip(points_list, pano_results)]: an instance
    of [GooglePanoPoint] is true, [None] is false. *)
Definition pair_or_skip (final_data : list Rec)
    (item : AnitabiPoint * option GooglePanoPoint) : list Rec :=
  let '(pt, pano_point) := item in
  match pano_point with
  | Some g => final_data ++ [mkRecord pt g]
  | None => final_data
  end.

(** [process_points_with_pano]; [client i] answers the request of the
    [i]-th task. *)
Definition process_points_with_pano (client : nat → http_result)
    (points_list : list AnitabiPoint) : res (list Rec) :=
  let final_data := [] in
  let tasks := imap (λ i pt, get_google_pano (client i) (geo pt)) points_list in
  pano_results ← gather tasks;
  mret (foldl pair_or_skip final_data (zip points_list pano_results)).

(** ** Strings *)

Definition newline : string := String "010"%char EmptyString.

(** [sep.join(parts)]. *)
Fixpoint str_join (sep : string) (parts : list string) : string :=
  match parts with
  | [] => ""
  | [x] => x
  | x :: rest => x +:+ sep +:+ str_join sep rest
  end.

(** [s.split(sep)] for a one-character separator. *)
Fixpoint str_split (sep : ascii) (s : string) : list string :=
  match s with
  | EmptyString => [""]
  | String c s' =>
      if Ascii.eqb c sep then "" :: str_split sep s'
      else match str_split sep s' with
           | [] => [String c ""]
           | x :: xs => String c x :: xs
           end
  end.

(** [c in s]. *)
Fixpoint str_mem (c : ascii) (s : string) : bool :=
  match s with
  | EmptyString => false
  | String c' s' => Ascii.eqb c' c || str_mem c s'
  end.

(** The lines of a text file: what the newlines separate, and no line at
    all in the empty file. *)
Definition file_lines (text : string) : list string :=
  match text with
  | EmptyString => []
  | _ => str_split "010" text
  end.

(** The letters of the alphabet that stand for the ASCII characters: those
    whose eighth bit is clear. *)
Definition is_ascii (c : ascii) : bool :=
  match c with
  | Ascii _ _ _ _ _ _ _ b7 => negb b7
  end.

(** ** Deduplication and export *)

Section Pipeline.

Set Default Proof Using "Type".

(** What an f-string writes for a value that is not a string: the decimal
    form of a number, [None], the display of a container. *)
Variable py_repr : pyval → string.

(** The hash of a string (salted per process) and of [None] or a
    number. *)
Variable str_hash : string → Z.
Variable scalar_hash : pyval → Z.

(** The order in which a set built by inserting the given records, in this
    order, is iterated.  The language leaves it open: it is some
    rearrangement of the records the set holds. *)
Variable set_iter_order : list Rec → list Rec.
Hypothesis set_iter_order_perm : ∀ l, set_iter_order l ≡ₚ l.

(** Which letters outside ASCII stand for a lone surrogate, the characters
    a JSON escape can put in a string and UTF-8 refuses to encode. *)
Variable lone_surrogate : ascii → bool.

(** [f"{v}"]. *)
Definition py_format (v : pyval) : string :=
  match v with
  | PStr s => s
  | _ => py_repr v
  end.

(** [hash(v)]: a list or a dictionary is unhashable. *)
Definition py_hash (v : pyval) : res Z :=
  match v with
  | PStr s => Ok (str_hash s)
  | PList _ | PDict _ => Raise TypeError
  | _ => Ok (scalar_hash v)
  end.

(** The property [GooglePanoPoint.url]. *)
Definition GooglePanoPoint_url (self : GooglePanoPoint) : string :=
  "https://www.google.com/maps/@" +:+ py_format (lat (pano_geo self))
    +:+ "," +:+ py_format (lng (pano_geo self))
    +:+ ",3a/data=!3m8!1e1!3m6!1s" +:+ py_format (pano_id self)
    +:+ "!2e10!3e12!6s".

(** [GooglePanoPoint.__eq__] and [__hash__], on two instances of the
    class. *)
Definition GooglePanoPoint_eq (self value : GooglePanoPoint) : bool :=
  py_eq (pano_id self) (pano_id value).

Definition GooglePanoPoint_hash (self : GooglePanoPoint) : res Z :=
  py_hash (pano_id self).

(** [Record.__eq__] and [__hash__], on two instances of the class. *)
Definition Record_eq (self value : Rec) : bool :=
  GooglePanoPoint_eq (google_pano_point self) (google_pano_point value).

Definition Record_hash (self : Rec) : res Z :=
  GooglePanoPoint_hash (google_pano_point self).

(** *** A Python set of records

    The entries of the table in the order they were inserted, each with
    its stored hash. *)
Definition pyset : Type := list (Z * Rec).

(** [s.add(key)]: the key is hashed; an entry with the same hash that
    compares equal to the key keeps its place and the key is dropped. *)
Definition set_add (s : pyset) (key : Rec) : res pyset :=
  h ← Record_hash key;
  if existsb (λ entry, (entry.1 =? h) && Record_eq entry.2 key) s
  then mret s
  else mret (s ++ [(h, key)]).

Fixpoint set_update (s : pyset) (items : list Rec) : res pyset :=
  match items with
  | [] => mret s
  | key :: rest => s' ← set_add s key; set_update s' rest
  end.

(** [set(records)] and [list(s)]. *)
Definition py_set (records : list Rec) : res pyset := set_update [] records.

Definition py_list (s : pyset) : list Rec := set_iter_order (s.*2).

(** [records = list(set(records))]. *)
Definition deduplicate (records : list Rec) : res (list Rec) :=
  s ← py_set records;
  mret (py_list s).

(** *** Export *)

Definition fieldnames : list string :=
  ["name"; "anitabi_lat"; "anitabi_lng"; "pano_id"; "pano_lat"; "pano_lng";
   "google_maps_url"].

(** A CSV file is kept as the rows handed to the writer, each the list of
    its cells; how the [csv] module quotes a cell is not modelled. *)
Definition csv_file : Type := list (list pyval).

(** [DictWriter.writeheader] and [DictWriter.writerow]: the cells in the
    order of the field names.  The dictionaries the script passes have
    exactly these keys, so the writer's check for unknown keys passes. *)
Definition writeheader (fields : list string) : list pyval := PStr <$> fields.

Definition writerow (fields : list string) (rowdict : list (string * pyval))
  : list pyval :=
  (λ k, default (PStr "") (dict_lookup k rowdict)) <$> fields.

(** The cell of [row] in the column called [field]. *)
Definition csv_field (field : string) (row : list pyval) : option pyval :=
  i ← list_find (String.eqb field) fieldnames; row !! i.1.

Definition rowdict_of (record : Rec) : list (string * pyval) :=
  [("name", name (anitabi_point record));
   ("anitabi_lat", lat (geo (anitabi_point record)));
   ("anitabi_lng", lng (geo (anitabi_point record)));
   ("pano_id", pano_id (google_pano_point record));
   ("pano_lat", lat (pano_geo (google_pano_point record)));
   ("pano_lng", lng (pano_geo (google_pano_point record)));
   ("google_maps_url", PStr (GooglePanoPoint_url (google_pano_point record)))].

(** The loop of [main] over the records: one CSV row and one URL each. *)
Definition export_loop (records : list Rec) (csvfile : csv_file)
    (tuxun_urls : list string) : csv_file * list string :=
  foldl (λ '(csvfile, tuxun_urls) record,
           (csvfile ++ [writerow fieldnames (rowdict_of record)],
            tuxun_urls ++ [GooglePanoPoint_url (google_pano_point record)]))
        (csvfile, tuxun_urls) records.

Record outputs : Type := mkOutputs {
  csv_output : csv_file;
  tuxun_output : string
}.

(** The output stage of [main]. *)
Definition export (records : list Rec) : outputs :=
  let tuxun_urls := [] in
  let csvfile := [writeheader fieldnames] in
  let '(csvfile, tuxun_urls) := export_loop records csvfile tuxun_urls in
  {| csv_output := csvfile; tuxun_output := str_join newline tuxun_urls |}.

(** *** Writing the two files

    Both files are opened with [encoding='utf-8']: a write raises
    [UnicodeEncodeError] when its text holds a lone surrogate. *)

Definition char_encodable (c : ascii) : bool :=
  is_ascii c || negb (lone_surrogate c).

Fixpoint utf8_encodable (s : string) : bool :=
  match s with
  | EmptyString => true
  | String c s' => char_encodable c && utf8_encodable s'
  end.

(** [file.write(text)]. *)
Definition file_write (text : string) : res unit :=
  if utf8_encodable text then Ok tt else Raise UnicodeEncodeError.

(** The text the [csv] writer makes of a cell: nothing for [None], the
    string itself, [str(v)] for another value. *)
Definition cell_text (v : pyval) : string :=
  match v with
  | PNone => ""
  | _ => py_format v
  end.

(** The writer hands the file one line per row, made of the texts of the
    cells and of ASCII punctuation: the write fails when a cell cannot be
    encoded. *)
Definition csv_write_row (row : list pyval) : res unit :=
  if forallb (λ cell, utf8_encodable (cell_text cell)) row then Ok tt
  else Raise UnicodeEncodeError.

Fixpoint csv_write_rows (rows : csv_file) : res unit :=
  match rows with
  | [] => mret tt
  | row :: rest => _ ← csv_write_row row; csv_write_rows rest
  end.

(** The writes of the output stage in their order: the header and the rows
    of the table one after the other, then the text of the URL file.  The
    first write that fails ends the run; what the table file holds then is
    not modelled. *)
Definition write_files (o : outputs) : res outputs :=
  _ ← csv_write_rows (csv_output o);
  _ ← file_write (tuxun_output o);
  mret o.

(** *** The whole run *)

Definition BANGUMI_IDS : list Z :=
  [115908; 152091; 283643; 216372; 386195; 211089].
Definition DEDUPLICATE_PANO : bool := true.

(** [main]; [catalog] answers the request for a work and [client] the
    request of the [i]-th resolution task. *)
Definition main (catalog : Z → http_result) (client : nat → http_result)
  : res outputs :=
  let points_list :=
    foldl (λ points_list bangumi_id,
             points_list ++ fetch_and_parse_points (catalog bangumi_id))
          [] BANGUMI_IDS in
  records ← process_points_with_pano client points_list;
  records ← (if DEDUPLICATE_PANO then deduplicate records else mret records);
  write_files (export records).

(** ** Notions used by the statements *)

(** A well-formed element of the [points] array and the catalog point it
    stands for: an object with a [name] and a [geo] array of two
    entries. *)
Definition well_formed_point (element : pyval) (point : AnitabiPoint) : Prop :=
  ∃ d n la ln,
    element = PDict d ∧ dict_lookup "name" d = Some n ∧
    dict_lookup "geo" d = Some (PList [la; ln]) ∧
    point = mkAnitabiPoint n (mkPoint la ln).

(** An element of the [points] array without a [geo] field. *)
Definition lacks_geo (element : pyval) : Prop :=
  ∃ d, element = PDict d ∧ dict_lookup "geo" d = None.

(** A reply that arrived with a 2xx status and a body that decodes to
    [data]. *)
Definition decodes_to (reply : http_result) (data : pyval) : Prop :=
  ∃ resp, reply = Ok resp ∧ raise_for_status resp = Ok tt ∧ json resp = Ok data.

(** The resolution of the point at index [i] is present. *)
Definition resolved_at (client : nat → http_result)
    (points : list AnitabiPoint) (i : nat) : Prop :=
  ∃ pt g, points !! i = Some pt ∧
          get_google_pano (client i) (geo pt) = Ok (Some g).

(** [r] pairs the point at index [i] with the resolution of the [i]-th
    task. *)
Definition paired_at (client : nat → http_result)
    (points : list AnitabiPoint) (i : nat) (r : Rec) : Prop :=
  ∃ pt g, points !! i = Some pt ∧
          get_google_pano (client i) (geo pt) = Ok (Some g) ∧
          r = mkRecord pt g.

(** The panorama identifier a record is compared and hashed by. *)
Definition pano_key (r : Rec) : pyval := pano_id (google_pano_point r).

(** The identifier is a string, as the dataclass declares it. *)
Definition str_keyed (r : Rec) : Prop := ∃ s, pano_key r = PStr s.

(** The records of a list that are the first with their identifier, after
    those of [seen]. *)
Fixpoint keep_first (seen records : list Rec) : list Rec :=
  match records with
  | [] => seen
  | r :: rest =>
      if existsb (λ e, Record_eq e r) seen then keep_first seen rest
      else keep_first (seen ++ [r]) rest
  end.

(** The record at index [i] is the first of the list with its
    identifier. *)
Definition first_with_key (records : list Rec) (i : nat) (r : Rec) : Prop :=
  records !! i = Some r ∧
  ∀ j r', (j < i)%nat → records !! j = Some r' → pano_key r' ≠ pano_key r.

(** Every entry of the table carries the hash of its record. *)
Definition coherent (s : pyset) : Prop :=
  Forall (λ entry, Record_hash entry.2 = Ok entry.1) s.

(** The last character of a string. *)
Fixpoint str_last (s : string) : option ascii :=
  match s with
  | EmptyString => None
  | String c s' =>
      match str_last s' with
      | None => Some c
      | Some d => Some d
      end
  end.

(** The catalog point the loop body of [fetch_and_parse_points] builds from
    one element, or the exception the element makes it raise. *)
Definition point_of (element : pyval) : res AnitabiPoint :=
  geo ← py_getitem element "geo";
  lat ← py_index geo 0;
  lng ← py_index geo 1;
  name ← py_get element "name" PNone;
  mret (mkAnitabiPoint name (mkPoint lat lng)).

(** An element the loop accepts although it is not well formed: an object
    whose [geo] array has at least two entries; [name] may be missing. *)
Definition accepted_point (element : pyval) (point : AnitabiPoint) : Prop :=
  ∃ d la ln more,
    element = PDict d ∧ dict_lookup "geo" d = Some (PList (la :: ln :: more)) ∧
    point = mkAnitabiPoint (default PNone (dict_lookup "name" d)) (mkPoint la ln).

(** [hash(v)] does not raise. *)
Definition hashable (v : pyval) : Prop :=
  match v with
  | PList _ | PDict _ => False
  | _ => True
  end.

(** ** Sample replies

    A catalog with the point ["A"], a metadata answer for panorama
    ["XYZ"], and their malformed or negative variants. *)

Definition ok_reply (data : pyval) : http_result :=
  Ok (mkResponse 200 (Ok data)).

Definition element_A : pyval :=
  PDict [("name", PStr "A"); ("geo", PList [PFloat 35%float; PFloat 139%float])].
Definition element_no_geo : pyval := PDict [("name", PStr "B")].
Definition point_A : AnitabiPoint :=
  mkAnitabiPoint (PStr "A") (mkPoint (PFloat 35%float) (PFloat 139%float)).

Definition catalog_A : list (string * pyval) :=
  [("points", PList [element_A])].
Definition catalog_A_then_no_geo : list (string * pyval) :=
  [("points", PList [element_A; element_no_geo; element_A])].

Definition location_XYZ : list (string * pyval) :=
  [("lat", PFloat 35.5%float); ("lng", PFloat 139.25%float)].
Definition metadata_XYZ : list (string * pyval) :=
  [("status", PStr "OK"); ("pano_id", PStr "XYZ"); ("location", PDict location_XYZ)].
Definition metadata_no_location : list (string * pyval) :=
  [("status", PStr "OK"); ("pano_id", PStr "XYZ")].
Definition metadata_no_pano_id : list (string * pyval) :=
  [("status", PStr "OK"); ("location", PDict location_XYZ)].
Definition metadata_empty_id : list (string * pyval) :=
  [("status", PStr "OK"); ("pano_id", PStr ""); ("location", PDict location_XYZ)].
Definition metadata_zero_results : list (string * pyval) :=
  [("status", PStr "ZERO_RESULTS")].

Definition metadata_list_id : list (string * pyval) :=
  [("status", PStr "OK"); ("pano_id", PList []); ("location", PDict location_XYZ)].
Definition element_long_geo : pyval :=
  PDict [("geo", PList [PFloat 35%float; PFloat 139%float; PInt 7])].
Definition point_unnamed : AnitabiPoint :=
  mkAnitabiPoint PNone (mkPoint (PFloat 35%float) (PFloat 139%float)).
Definition catalog_long_geo : list (string * pyval) :=
  [("points", PList [element_long_geo])].

Definition pano_XYZ : GooglePanoPoint :=
  mkGooglePanoPoint (mkPoint (PFloat 35.5%float) (PFloat 139.25%float)) (PStr "XYZ").
Definition pano_SAME : GooglePanoPoint :=
  mkGooglePanoPoint (mkPoint (PFloat 35.5%float) (PFloat 139.25%float)) (PStr "SAME").
Definition point_B : AnitabiPoint :=
  mkAnitabiPoint (PStr "B") (mkPoint (PFloat 36%float) (PFloat 140%float)).

(** Two points on panorama ["SAME"] around one on ["XYZ"]. *)
Definition three_records : list Rec :=
  [mkRecord point_A pano_SAME; mkRecord point_A pano_XYZ; mkRecord point_B pano_SAME].

Definition record_list_id : Rec :=
  mkRecord point_A
    (mkGooglePanoPoint (mkPoint (PFloat 35.5%float) (PFloat 139.25%float)) (PList [])).

(** A hash with collisions and an iteration order, to run the set on. *)
Definition length_hash (s : string) : Z := Z.of_nat (String.length s).
Definition zero_hash (v : pyval) : Z := 0.
Definition reversed (l : list Rec) : list Rec := reverse l.
Definition quoted (v : pyval) : string := "?".

(** An alphabet without lone surrogates, and one whose last letter stands
    for a lone surrogate. *)
Definition no_surrogate (c : ascii) : bool := false.
Definition surrogate_255 (c : ascii) : bool := Ascii.eqb c "255".

(** An identifier with a newline inside, and a name with a lone
    surrogate. *)
Definition id_with_newline : string := "a" +:+ newline +:+ "b".
Definition metadata_newline_id : list (string * pyval) :=
  [("status", PStr "OK"); ("pano_id", PStr id_with_newline);
   ("location", PDict location_XYZ)].
Definition pano_newline : GooglePanoPoint :=
  mkGooglePanoPoint (mkPoint (PFloat 35.5%float) (PFloat 139.25%float))
    (PStr id_with_newline).
Definition catalog_surrogate_name : list (string * pyval) :=
  [("points",
    PList [PDict [("name", PStr (String "255" ""));
                  ("geo", PList [PFloat 35%float; PFloat 139%float])]])].

(** ** The catalog client *)

Lemma parse_point_well_formed element point (results : list AnitabiPoint) :
  well_formed_point element point →
  parse_point element results = (results ++ [point], Ok tt).
Proof.
  intros (d & n & la & ln & -> & Hn & Hg & ->).
  unfold parse_point, py_getitem, py_get.
  cbn. rewrite Hg. cbn. by rewrite Hn.
Qed.

Lemma parse_point_lacks_geo element (results : list AnitabiPoint) :
  lacks_geo element →
  parse_point element results = (results, Raise KeyError).
Proof.
  intros (d & -> & Hg). unfold parse_point, py_getitem. cbn. by rewrite Hg.
Qed.

Lemma for_each_well_formed elements points (results : list AnitabiPoint) :
  Forall2 well_formed_point elements points →
  for_each parse_point elements results = (results ++ points, Ok tt).
Proof.
  intros H. revert results.
  induction H as [|e p es ps He _ IH]; intros results; cbn.
  - by rewrite app_nil_r.
  - unfold mbind, stateful_bind.
    rewrite (parse_point_well_formed _ _ _ He), IH.
    by rewrite <- app_assoc.
Qed.

Lemma for_each_app {S A} (body : A → stateful S unit) (l1 l2 : list A) (s : S) :
  for_each body (l1 ++ l2) s =
  match for_each body l1 s with
  | (s', Ok _) => for_each body l2 s'
  | (s', Raise e) => (s', Raise e)
  end.
Proof.
  revert s. induction l1 as [|x l1 IH]; intros s; cbn; [done|].
  unfold mbind, stateful_bind.
  destruct (body x s) as [s' [[]|e]]; [apply IH | done].
Qed.

Lemma fetch_decoded reply d items :
  decodes_to reply (PDict d) →
  dict_lookup "points" d = Some (PList items) →
  fetch_and_parse_points reply = (for_each parse_point items []).1.
Proof.
  intros (resp & -> & Hst & Hj) Hp.
  unfold fetch_and_parse_points, stateful_try, fetch_body, lift.
  unfold mbind, stateful_bind. rewrite Hst, Hj. cbn. rewrite Hp. cbn.
  by destruct (for_each parse_point items []) as [s [[]|[]]].
Qed.

(** C6.  When the [points] array of a catalog response consists of N
    well-formed entries, the catalog client returns exactly the N catalog
    points they stand for, in the order of the array. *)
Theorem fetch_well_formed reply d items points :
  decodes_to reply (PDict d) →
  dict_lookup "points" d = Some (PList items) →
  Forall2 well_formed_point items points →
  fetch_and_parse_points reply = points ∧
  length (fetch_and_parse_points reply) = length items.
Proof.
  intros Hr Hp Hwf.
  rewrite (fetch_decoded _ _ _ Hr Hp), (for_each_well_formed _ _ _ Hwf).
  cbn. split; [done|]. symmetry. by eapply Forall2_length.
Qed.

(** C3, as the code has it.  When an element without [geo] follows
    well-formed elements in the [points] array, the catalog client returns
    the catalog points of the elements before it: the list is empty only
    when no well-formed element comes first. *)
Theorem fetch_stops_at_missing_geo reply d before bad after points :
  decodes_to reply (PDict d) →
  dict_lookup "points" d = Some (PList (before ++ bad :: after)) →
  Forall2 well_formed_point before points →
  lacks_geo bad →
  fetch_and_parse_points reply = points.
Proof.
  intros Hr Hp Hwf Hbad.
  rewrite (fetch_decoded _ _ _ Hr Hp), for_each_app.
  rewrite (for_each_well_formed _ _ _ Hwf). cbn.
  unfold mbind, stateful_bind.
  by rewrite (parse_point_lacks_geo _ _ Hbad).
Qed.

(** ** The panorama resolver *)

Lemma py_eq_str v s : py_eq v (PStr s) = true ↔ v = PStr s.
Proof.
  destruct v; cbn; try (split; [discriminate | congruence]).
  rewrite String.eqb_eq. split; congruence.
Qed.

(** The resolver returns to its caller whatever the reply is. *)
Lemma get_google_pano_returns reply p : ∃ o, get_google_pano reply p = Ok o.
Proof.
  unfold get_google_pano, try_except.
  destruct (pano_body reply p); eauto.
Qed.

Lemma get_google_pano_found reply p g :
  get_google_pano reply p = Ok (Some g) →
  ∃ d loc,
    decodes_to reply (PDict d) ∧
    dict_lookup "status" d = Some (PStr "OK") ∧
    dict_lookup "pano_id" d = Some (pano_id g) ∧
    dict_lookup "location" d = Some (PDict loc) ∧
    pano_geo g = mkPoint (default (lat p) (dict_lookup "lat" loc))
                         (default (lng p) (dict_lookup "lng" loc)).
Proof.
  unfold get_google_pano, try_except, pano_body.
  destruct reply as [resp|e]; cbn; [|discriminate].
  destruct (raise_for_status resp) as [[]|e] eqn:Hst; cbn; [|discriminate].
  destruct (json resp) as [data|e] eqn:Hj; cbn; [|discriminate].
  destruct data as [| | | | |l|d]; cbn; try discriminate.
  destruct (py_eq _ _) eqn:Heq; cbn; [|discriminate].
  apply py_eq_str in Heq.
  destruct (dict_lookup "status" d) as [st|] eqn:Hs; cbn in Heq; [|discriminate].
  subst st.
  destruct (dict_lookup "pano_id" d) as [pid|] eqn:Hp; cbn; [|discriminate].
  destruct (dict_lookup "location" d) as [[| | | | |l|loc]|] eqn:Hl; cbn;
    try discriminate.
  intros [= <-]. exists d, loc. repeat split; try done.
  by exists resp.
Qed.

(** C7.  When the status field of the resolver response is anything but
    ["OK"], the resolver returns [None] to its caller: no exception
    leaves it. *)
Theorem get_google_pano_not_ok resp data p :
  json resp = Ok data →
  py_get data "status" PNone ≠ Ok (PStr "OK") →
  get_google_pano (Ok resp) p = Ok None.
Proof.
  intros Hj Hs. unfold get_google_pano, try_except, pano_body. cbn.
  destruct (raise_for_status resp) as [[]|e]; cbn; [|done].
  rewrite Hj. cbn.
  destruct (py_get data "status" PNone) as [st|e]; cbn; [|done].
  destruct (py_eq st (PStr "OK")) eqn:Heq; [|done].
  apply py_eq_str in Heq. by subst st.
Qed.

(** C4, as the code has it.  For a response with status ["OK"] that
    carries a [pano_id] and a [location] object, the resolver returns a
    panorama with that identifier whose latitude (longitude) is the one of
    [location] when it has one, and the requested one otherwise. *)
Theorem get_google_pano_ok reply d pid loc p :
  decodes_to reply (PDict d) →
  dict_lookup "status" d = Some (PStr "OK") →
  dict_lookup "pano_id" d = Some pid →
  dict_lookup "location" d = Some (PDict loc) →
  get_google_pano reply p =
    Ok (Some (mkGooglePanoPoint
                (mkPoint (default (lat p) (dict_lookup "lat" loc))
                         (default (lng p) (dict_lookup "lng" loc)))
                pid)).
Proof.
  intros (resp & -> & Hst & Hj) Hs Hp Hl.
  unfold get_google_pano, try_except, pano_body. cbn.
  rewrite Hst. cbn. rewrite Hj. cbn. rewrite Hs. cbn.
  by rewrite Hp, Hl.
Qed.

(** ** The batch orchestrator *)

Lemma foldl_pair_or_skip acc items :
  foldl pair_or_skip acc items = acc ++ foldl pair_or_skip [] items.
Proof.
  revert acc. induction items as [|[pt [g|]] items IH]; intros acc; cbn.
  - by rewrite app_nil_r.
  - rewrite IH, (IH [_]). by rewrite <- app_assoc.
  - apply IH.
Qed.

Lemma StronglySorted_lt_S idx :
  StronglySorted lt idx → StronglySorted lt (S <$> idx).
Proof.
  induction 1 as [|i idx _ IH Hall]; cbn; constructor; [done|].
  apply Forall_fmap. eapply Forall_impl; [exact Hall|].
  intros j Hj. cbn. lia.
Qed.

(** The loop over the zipped lists, unfolded by induction on the points:
    the records are, in increasing order of index, the pairs of a point with
    the present result of its own task. *)
Lemma process_points_with_pano_pairs client points :
  ∃ out idx,
    process_points_with_pano client points = Ok out ∧
    StronglySorted lt idx ∧
    (∀ i, i ∈ idx ↔ resolved_at client points i) ∧
    Forall2 (paired_at client points) idx out ∧
    anitabi_point <$> out `sublist_of` points.
Proof.
  unfold process_points_with_pano. revert client.
  induction points as [|pt rest IH]; intros client.
  - exists [], []. cbn. repeat split; try constructor.
    + by intros ?%elem_of_nil.
    + by intros (? & ? & ? & _).
  - destruct (IH (client ∘ S))
      as (out & idx & Hout & Hs & Hmem & Hpairs & Hsub).
    rewrite imap_cons. cbn [gather].
    destruct (get_google_pano_returns (client 0%nat) (geo pt)) as [o Ho].
    rewrite Ho. cbn.
    destruct (gather (imap _ rest)) as [results|e]; cbn in Hout |- *;
      [|discriminate].
    injection Hout as <-.
    rewrite foldl_pair_or_skip.
    assert (Hshift : Forall2 (paired_at client (pt :: rest)) (S <$> idx)
                       (foldl pair_or_skip [] (zip rest results))).
    { apply Forall2_fmap_l. eapply Forall2_impl; [exact Hpairs|].
      by intros i r Hir. }
    assert (Hin : ∀ i, S i ∈ S <$> idx ↔ resolved_at client (pt :: rest) (S i)).
    { intros i. rewrite (list_elem_of_fmap_inj S). apply Hmem. }
    assert (H0 : 0%nat ∉ S <$> idx).
    { intros (j & ? & _)%list_elem_of_fmap. lia. }
    destruct o as [g|].
    + exists (mkRecord pt g :: foldl pair_or_skip [] (zip rest results)),
             (0%nat :: (S <$> idx)).
      repeat split.
      * constructor; [by apply StronglySorted_lt_S|].
        apply Forall_fmap, Forall_forall. intros j _. cbn. lia.
      * intros [->|Hi]%elem_of_cons; [by exists pt, g|].
        destruct i; [done|]. by apply Hin.
      * intros Hr. destruct i; [left|right; by apply Hin].
      * constructor; [by exists pt, g | exact Hshift].
      * cbn. by apply sublist_skip.
    + exists (foldl pair_or_skip [] (zip rest results)), (S <$> idx).
      repeat split.
      * by apply StronglySorted_lt_S.
      * intros Hi. destruct i; [done|]. by apply Hin.
      * intros Hr. destruct i; [|by apply Hin].
        destruct Hr as (pt' & g' & [= <-] & Hg). congruence.
      * exact Hshift.
      * by apply sublist_cons.
Qed.

Lemma StronglySorted_lt_NoDup idx : StronglySorted lt idx → NoDup idx.
Proof.
  induction 1 as [|i idx _ IH Hall]; constructor; [|done].
  intros Hi. rewrite Forall_forall in Hall. specialize (Hall _ Hi). lia.
Qed.

(** C1.  The orchestrator returns, for every list of points and every
    way the requests are answered, the records that pair each point whose
    result is present with the result at the same index, in increasing
    order of index: points without a result are dropped and the others
    keep their relative order, the points of the records being a
    subsequence of the input. *)
Theorem process_points_with_pano_zip client points :
  ∃ out idx,
    process_points_with_pano client points = Ok out ∧
    StronglySorted lt idx ∧
    (∀ i, i ∈ idx ↔ resolved_at client points i) ∧
    Forall2 (paired_at client points) idx out ∧
    anitabi_point <$> out `sublist_of` points.
Proof. apply process_points_with_pano_pairs. Qed.

(** C5, as the code has it.  Every record the orchestrator builds comes
    from an index of its own whose request was answered with status
    ["OK"]; its identifier is the [pano_id] of that answer, whatever value
    that is, and its panorama is the present result of that request.  No
    record comes from a point whose result is absent. *)
Theorem records_come_from_resolutions client points :
  ∃ out idx,
    process_points_with_pano client points = Ok out ∧
    NoDup idx ∧
    Forall2 (λ i r, ∃ d,
               points !! i = Some (anitabi_point r) ∧
               decodes_to (client i) (PDict d) ∧
               dict_lookup "status" d = Some (PStr "OK") ∧
               dict_lookup "pano_id" d = Some (pano_key r) ∧
               get_google_pano (client i) (geo (anitabi_point r))
                 = Ok (Some (google_pano_point r)))
            idx out.
Proof.
  destruct (process_points_with_pano_pairs client points)
    as (out & idx & Hout & Hs & _ & Hpairs & _).
  exists out, idx. split; [done|]. split; [by apply StronglySorted_lt_NoDup|].
  eapply Forall2_impl; [exact Hpairs|].
  intros i r (pt & g & Hpt & Hg & ->).
  destruct (get_google_pano_found _ _ _ Hg) as (d & loc & Hd & Hst & Hid & _).
  by exists d.
Qed.

(** ** Deduplication *)

Lemma Record_eq_str e r :
  str_keyed e → str_keyed r →
  Record_eq e r = true ↔ pano_key e = pano_key r.
Proof.
  intros [s Hs] [t Ht].
  unfold Record_eq, GooglePanoPoint_eq. fold (pano_key e) (pano_key r).
  rewrite Hs, Ht. cbn. rewrite String.eqb_eq. split; congruence.
Qed.

Lemma existsb_Record_eq seen r :
  Forall str_keyed seen → str_keyed r →
  existsb (λ e, Record_eq e r) seen = true ↔ pano_key r ∈ pano_key <$> seen.
Proof.
  intros Hseen Hr. rewrite existsb_exists, list_elem_of_fmap.
  split.
  - intros (e & He%list_elem_of_In & Heq). exists e. split; [|done].
    symmetry. apply Record_eq_str; [|done..].
    by eapply Forall_forall in Hseen.
  - intros (e & Heq & He). exists e. split; [by apply list_elem_of_In|].
    apply Record_eq_str; [|done..].
    by eapply Forall_forall in Hseen.
Qed.

Lemma Record_hash_str r : str_keyed r → ∃ h, Record_hash r = Ok h.
Proof.
  intros [s Hs]. unfold Record_hash, GooglePanoPoint_hash.
  fold (pano_key r). rewrite Hs. by eexists.
Qed.

(** On a coherent table of string-keyed records the stored hashes never
    hide an equal entry. *)
Lemma set_lookup_str (s : pyset) r h :
  coherent s → Forall str_keyed s.*2 → str_keyed r → Record_hash r = Ok h →
  existsb (λ entry, (entry.1 =? h) && Record_eq entry.2 r) s
  = existsb (λ e, Record_eq e r) s.*2.
Proof.
  intros Hc Hs Hr Hh.
  induction s as [|[h' e] s IH]; cbn in *; [done|].
  apply Forall_cons in Hc as [Hh' Hc]. apply Forall_cons in Hs as [He Hs].
  rewrite (IH Hc Hs). f_equal. cbn in Hh'.
  destruct (Record_eq e r) eqn:Heq; [|by rewrite andb_false_r].
  rewrite andb_true_r. apply Z.eqb_eq.
  apply Record_eq_str in Heq; [|done..].
  unfold Record_hash, GooglePanoPoint_hash in Hh, Hh'.
  fold (pano_key e) in Hh'. fold (pano_key r) in Hh.
  rewrite Heq, Hh in Hh'. congruence.
Qed.

Lemma set_update_str (s : pyset) records :
  coherent s → Forall str_keyed s.*2 → Forall str_keyed records →
  ∃ s', set_update s records = Ok s' ∧ s'.*2 = keep_first s.*2 records.
Proof.
  intros Hc Hs Hrs. revert s Hc Hs.
  induction Hrs as [|r rest Hr _ IH]; intros s Hc Hs; cbn; [by eexists|].
  unfold set_add. destruct (Record_hash_str r Hr) as [h Hh].
  rewrite Hh. cbn. rewrite (set_lookup_str s r h Hc Hs Hr Hh).
  destruct (existsb _ s.*2); cbn; [by apply IH|].
  destruct (IH (s ++ [(h, r)])) as (s' & Hs' & Hk).
  - apply Forall_app. split; [done|]. by constructor.
  - rewrite fmap_app. apply Forall_app. split; [done|]. by constructor.
  - exists s'. split; [done|]. by rewrite Hk, fmap_app.
Qed.

Lemma py_set_str records :
  Forall str_keyed records →
  ∃ s, py_set records = Ok s ∧ s.*2 = keep_first [] records.
Proof.
  intros H. unfold py_set.
  apply (set_update_str [] records); [constructor|constructor|exact H].
Qed.

Lemma keep_first_elem seen records r :
  r ∈ keep_first seen records → r ∈ seen ∨ r ∈ records.
Proof.
  revert seen. induction records as [|r0 rest IH]; intros seen; cbn; [auto|].
  destruct (existsb _ seen); intros [H|H]%IH; rewrite ?elem_of_cons; auto.
  apply elem_of_app in H as [H|H%list_elem_of_singleton]; auto.
Qed.

Lemma existsb_Record_eq_false seen r :
  Forall str_keyed seen → str_keyed r →
  existsb (λ e, Record_eq e r) seen = false ↔ pano_key r ∉ pano_key <$> seen.
Proof.
  intros Hseen Hr. rewrite <- (existsb_Record_eq seen r Hseen Hr).
  by destruct (existsb _ seen).
Qed.

Lemma keep_first_NoDup seen records :
  Forall str_keyed seen → Forall str_keyed records →
  NoDup (pano_key <$> seen) →
  NoDup (pano_key <$> keep_first seen records).
Proof.
  intros Hseen Hrs. revert seen Hseen.
  induction Hrs as [|r rest Hr _ IH]; intros seen Hseen Hnd; cbn; [done|].
  destruct (existsb _ seen) eqn:Hex; [by apply IH|].
  apply existsb_Record_eq_false in Hex; [|done..].
  apply IH.
  - apply Forall_app. split; [done|]. by constructor.
  - rewrite fmap_app. apply NoDup_app. split; [done|]. split.
    + intros k Hk ->%list_elem_of_singleton. done.
    + apply NoDup_singleton.
Qed.

Lemma keep_first_keys seen records k :
  Forall str_keyed seen → Forall str_keyed records →
  k ∈ pano_key <$> keep_first seen records ↔
  k ∈ pano_key <$> seen ∨ k ∈ pano_key <$> records.
Proof.
  intros Hseen Hrs. revert seen Hseen.
  induction Hrs as [|r rest Hr _ IH]; intros seen Hseen; cbn.
  { rewrite elem_of_nil. split; [auto | by intros [H|[]]]. }
  rewrite elem_of_cons.
  destruct (existsb _ seen) eqn:Hex.
  - apply existsb_Record_eq in Hex; [|done..].
    rewrite (IH seen Hseen). split; [intros [H|H]; auto|].
    intros [H|[->|H]]; auto.
  - rewrite IH by (apply Forall_app; split; [done|]; by constructor).
    rewrite fmap_app, elem_of_app. cbn. rewrite list_elem_of_singleton.
    split; [intros [[H|H]|H] | intros [H|[H|H]]]; auto.
Qed.

Lemma keep_first_distinct seen records :
  Forall str_keyed seen → Forall str_keyed records →
  NoDup (pano_key <$> seen ++ records) →
  keep_first seen records = seen ++ records.
Proof.
  intros Hseen Hrs. revert seen Hseen.
  induction Hrs as [|r rest Hr _ IH]; intros seen Hseen Hnd; cbn.
  { by rewrite app_nil_r. }
  assert (Hex : existsb (λ e, Record_eq e r) seen = false).
  { apply existsb_Record_eq_false; [done..|].
    rewrite fmap_app in Hnd. apply NoDup_app in Hnd as (_ & Hnd & _).
    intros Hk. apply (Hnd _ Hk). cbn. apply elem_of_cons. by left. }
  rewrite Hex, (cons_middle r seen rest), app_assoc.
  apply IH.
  - apply Forall_app. split; [done|]. by constructor.
  - by rewrite <- app_assoc.
Qed.

Lemma keep_first_first seen records r :
  Forall str_keyed seen → Forall str_keyed records →
  r ∈ keep_first seen records ↔
  r ∈ seen ∨
  ∃ i, first_with_key records i r ∧ pano_key r ∉ pano_key <$> seen.
Proof.
  intros Hseen Hrs. revert seen Hseen.
  induction Hrs as [|r0 rest Hr0 Hrest IH]; intros seen Hseen; cbn.
  { split; [auto|]. intros [H|(i & [H _] & _)]; [done|by destruct i]. }
  destruct (existsb _ seen) eqn:Hex.
  - apply existsb_Record_eq in Hex; [|done..].
    rewrite (IH seen Hseen). apply or_iff_compat_l. split.
    + intros (i & [Hi Hfirst] & Hk). exists (S i). split; [|done].
      split; [done|]. intros [|j] r' Hj Hr'; cbn in Hr'.
      * injection Hr' as <-. congruence.
      * apply (Hfirst j); [lia|done].
    + intros ([|i] & [Hi Hfirst] & Hk); cbn in Hi.
      * injection Hi as <-. done.
      * exists i. split; [|done]. split; [done|].
        intros j r' Hj Hr'. apply (Hfirst (S j)); [lia|done].
  - apply existsb_Record_eq_false in Hex; [|done..].
    rewrite IH by (apply Forall_app; split; [done|]; by constructor).
    rewrite elem_of_app, list_elem_of_singleton. split.
    + intros [[H| ->]|(i & [Hi Hfirst] & Hk)]; [by left| |].
      * right. exists 0%nat. split; [|done]. split; [done|]. lia.
      * right. rewrite fmap_app, elem_of_app in Hk. cbn in Hk.
        rewrite list_elem_of_singleton in Hk.
        exists (S i). split; [|by intros H; apply Hk; left]. split; [done|].
        intros [|j] r' Hj Hr'; cbn in Hr'.
        -- injection Hr' as <-. intros Heq. apply Hk. by right.
        -- apply (Hfirst j); [lia|done].
    + intros [H|([|i] & [Hi Hfirst] & Hk)]; [by left; left| |]; cbn in Hi.
      * injection Hi as <-. left. by right.
      * right. exists i. split.
        -- split; [done|]. intros j r' Hj Hr'.
           apply (Hfirst (S j)); [lia|done].
        -- rewrite fmap_app, elem_of_app. cbn. rewrite list_elem_of_singleton.
           intros [H|H]; [done|].
           apply (Hfirst 0%nat r0); [lia|done|done].
Qed.

(** C8.  Equality and hash of records look at the panorama identifier
    only; and the set built from a list of records, identifiers being
    strings, holds exactly the records that are the first of the list with
    their identifier. *)
Theorem set_keeps_first_inserted :
  (∀ a a' b b',
     pano_key a = pano_key a' → pano_key b = pano_key b' →
     Record_eq a b = Record_eq a' b' ∧ Record_hash a = Record_hash a') ∧
  (∀ records,
     Forall str_keyed records →
     ∃ s, py_set records = Ok s ∧
          ∀ r, r ∈ s.*2 ↔ ∃ i, first_with_key records i r).
Proof.
  split.
  - intros a a' b b' Ha Hb.
    unfold Record_eq, Record_hash, GooglePanoPoint_eq, GooglePanoPoint_hash.
    fold (pano_key a) (pano_key a') (pano_key b) (pano_key b').
    by rewrite Ha, Hb.
  - intros records Hrs.
    destruct (py_set_str records Hrs) as (s & Hs & Hk).
    exists s. split; [done|]. intros r.
    rewrite Hk, keep_first_first by (done || constructor).
    split.
    + intros [H|(i & Hi & _)]; [by apply elem_of_nil in H | eauto].
    + intros (i & Hi). right. exists i. split; [done|].
      cbn. apply not_elem_of_nil.
Qed.

(** C2.  Deduplicating a list of records, identifiers being strings,
    returns records of the list with exactly one record for each
    identifier of the list; it keeps the length of a list whose
    identifiers are distinct; and deduplicating its result again returns
    the same records. *)
Theorem deduplicate_one_per_pano_id records :
  Forall str_keyed records →
  ∃ out,
    deduplicate records = Ok out ∧
    (∀ r, r ∈ out → r ∈ records) ∧
    NoDup (pano_key <$> out) ∧
    (∀ k, k ∈ pano_key <$> out ↔ k ∈ pano_key <$> records) ∧
    (NoDup (pano_key <$> records) → length out = length records) ∧
    (∃ out', deduplicate out = Ok out' ∧ out' ≡ₚ out).
Proof using set_iter_order_perm.
  intros Hrs. unfold deduplicate, py_list.
  destruct (py_set_str records Hrs) as (s & Hs & Hk).
  rewrite Hs. cbn. rewrite Hk.
  set (kept := keep_first [] records).
  pose proof (set_iter_order_perm kept) as Hperm.
  assert (Hsub : ∀ r, r ∈ set_iter_order kept → r ∈ records).
  { intros r Hr. rewrite Hperm in Hr.
    apply keep_first_elem in Hr as [Hr|Hr]; [by apply elem_of_nil in Hr|done]. }
  assert (Hnd : NoDup (pano_key <$> set_iter_order kept)).
  { rewrite Hperm. apply keep_first_NoDup; [constructor|done|constructor]. }
  exists (set_iter_order kept). repeat split; try done.
  - rewrite Hperm. intros Hk'.
    apply keep_first_keys in Hk' as [Hk'|Hk']; [|done|constructor|done].
    by apply elem_of_nil in Hk'.
  - rewrite Hperm. intros Hk'. apply keep_first_keys; [constructor|done|auto].
  - intros Hdistinct. rewrite Hperm. unfold kept.
    by rewrite keep_first_distinct; [|constructor|done|done].
  - assert (Hout : Forall str_keyed (set_iter_order kept)).
    { apply Forall_forall. intros r Hr%Hsub.
      by eapply Forall_forall in Hrs. }
    destruct (py_set_str _ Hout) as (s' & Hs' & Hk').
    rewrite Hs'. cbn. eexists. split; [done|].
    rewrite Hk', keep_first_distinct by (done || constructor).
    apply set_iter_order_perm.
Qed.

(** ** Export *)

Lemma export_loop_spec records csvfile tuxun_urls :
  export_loop records csvfile tuxun_urls =
  (csvfile ++ ((λ r, writerow fieldnames (rowdict_of r)) <$> records),
   tuxun_urls ++ ((λ r, GooglePanoPoint_url (google_pano_point r)) <$> records)).
Proof.
  unfold export_loop. revert csvfile tuxun_urls.
  induction records as [|r rest IH]; intros csvfile tuxun_urls; cbn.
  - by rewrite !app_nil_r.
  - rewrite IH. by rewrite <- !app_assoc.
Qed.

Lemma export_spec records :
  export records =
  mkOutputs
    (writeheader fieldnames :: ((λ r, writerow fieldnames (rowdict_of r)) <$> records))
    (str_join newline ((λ r, GooglePanoPoint_url (google_pano_point r)) <$> records)).
Proof. unfold export. by rewrite export_loop_spec. Qed.

Lemma str_last_app a b c : str_last b = Some c → str_last (a +:+ b) = Some c.
Proof.
  intros Hb. induction a as [|ch a IH]; [done|].
  change (String ch a +:+ b) with (String ch (a +:+ b)).
  cbn [str_last]. by rewrite IH.
Qed.

Lemma str_last_join sep parts c :
  parts ≠ [] → Forall (λ x, str_last x = Some c) parts →
  str_last (str_join sep parts) = Some c.
Proof.
  intros Hne Hall. induction Hall as [|x rest Hx Hrest IH]; [done|].
  destruct rest as [|y rest]; [done|].
  change (str_join sep (x :: y :: rest))
    with (x +:+ sep +:+ str_join sep (y :: rest)).
  apply str_last_app, str_last_app. by apply IH.
Qed.

Lemma url_last g : str_last (GooglePanoPoint_url g) = Some "s"%char.
Proof. unfold GooglePanoPoint_url. by do 6 apply str_last_app. Qed.

Lemma str_last_newline t : str_last (t +:+ newline) = Some "010"%char.
Proof. by apply str_last_app. Qed.

Lemma str_app_nil_r (a : string) : a +:+ "" = a.
Proof.
  induction a as [|ch a IH]; [done|].
  change (String ch a +:+ "") with (String ch (a +:+ "")). by rewrite IH.
Qed.

Lemma str_app_assoc (a b c : string) : (a +:+ b) +:+ c = a +:+ b +:+ c.
Proof.
  induction a as [|ch a IH]; [done|].
  change (String ch ((a +:+ b) +:+ c) = String ch (a +:+ b +:+ c)).
  by rewrite IH.
Qed.

Lemma str_join_lines sep x rest :
  str_join sep (x :: rest) +:+ sep = foldr (λ u acc, u +:+ sep +:+ acc) "" (x :: rest).
Proof.
  revert x. induction rest as [|y rest IH]; intros x.
  - cbn. by rewrite str_app_nil_r.
  - change (str_join sep (x :: y :: rest))
      with (x +:+ sep +:+ str_join sep (y :: rest)).
    by rewrite !str_app_assoc, IH.
Qed.

(** C9.  The URL file holds the viewer URL of every record, in the order
    of the list, with one newline between two URLs and none after the
    last: followed by a newline, the text is the URLs each followed by a
    newline; it never ends in a newline; and it is empty for the empty
    list. *)
Theorem tuxun_output_join records :
  tuxun_output (export records)
    = str_join newline ((λ r, GooglePanoPoint_url (google_pano_point r)) <$> records) ∧
  match records with
  | [] => tuxun_output (export records) = ""
  | _ =>
      tuxun_output (export records) +:+ newline
      = foldr (λ u acc, u +:+ newline +:+ acc) ""
              ((λ r, GooglePanoPoint_url (google_pano_point r)) <$> records)
  end ∧
  ∀ t, tuxun_output (export records) ≠ t +:+ newline.
Proof.
  rewrite export_spec. cbn [tuxun_output]. split; [done|]. split.
  - destruct records as [|r rest]; [done|].
    rewrite fmap_cons. apply str_join_lines.
  - intros t Ht. pose proof (str_last_newline t) as Hlast.
    rewrite <- Ht in Hlast.
    destruct records as [|r rest]; [done|].
    rewrite (str_last_join newline _ "s"%char) in Hlast; [done|done|].
    apply Forall_fmap, Forall_forall. intros r' _. apply url_last.
Qed.

Lemma str_split_no_sep sep a : str_mem sep a = false → str_split sep a = [a].
Proof.
  induction a as [|c a IH]; [done|].
  cbn [str_mem str_split]. intros [Hc Ha]%orb_false_iff.
  by rewrite Hc, (IH Ha).
Qed.

Lemma str_split_app sep a rest :
  str_mem sep a = false →
  str_split sep (a +:+ String sep rest) = a :: str_split sep rest.
Proof.
  induction a as [|c a IH].
  - intros _. change ("" +:+ String sep rest) with (String sep rest).
    cbn [str_split]. by rewrite Ascii.eqb_refl.
  - cbn [str_mem]. intros [Hc Ha]%orb_false_iff.
    change (String c a +:+ String sep rest) with (String c (a +:+ String sep rest)).
    cbn [str_split]. by rewrite Hc, (IH Ha).
Qed.

Lemma str_split_join parts :
  parts ≠ [] → Forall (λ x, str_mem "010" x = false) parts →
  str_split "010" (str_join newline parts) = parts.
Proof.
  intros Hne Hall. induction Hall as [|x rest Hx Hrest IH]; [done|].
  destruct rest as [|y rest]; [by apply str_split_no_sep|].
  change (str_join newline (x :: y :: rest))
    with (x +:+ String "010" (str_join newline (y :: rest))).
  rewrite (str_split_app _ _ _ Hx). f_equal. by apply IH.
Qed.

(** X13.  Read back line by line, the URL file gives the URLs of the
    records, as long as no URL has a newline inside (an identifier or a
    coordinate written with one would spread its URL over two lines). *)
Lemma tuxun_output_file_lines records :
  Forall (λ r, str_mem "010" (GooglePanoPoint_url (google_pano_point r)) = false)
         records →
  file_lines (tuxun_output (export records))
  = (λ r, GooglePanoPoint_url (google_pano_point r)) <$> records.
Proof.
  intros Hall. rewrite export_spec. cbn [tuxun_output].
  destruct records as [|r rest]; [done|].
  assert (Hjoin : str_split "010"
            (str_join newline
               ((λ r, GooglePanoPoint_url (google_pano_point r)) <$> r :: rest))
          = (λ r, GooglePanoPoint_url (google_pano_point r)) <$> r :: rest).
  { apply str_split_join; [done|]. by apply Forall_fmap. }
  unfold file_lines.
  destruct (str_join newline _) eqn:Htext; [|done].
  pose proof (url_last (google_pano_point r)) as Hlast.
  assert (Hl : str_last
            (str_join newline
               ((λ r, GooglePanoPoint_url (google_pano_point r)) <$> r :: rest))
          = Some "s"%char).
  { apply str_last_join; [done|]. apply Forall_fmap, Forall_forall.
    intros r' _. apply url_last. }
  by rewrite Htext in Hl.
Qed.

(** ** More on the catalog client *)

Lemma parse_point_point_of element (results : list AnitabiPoint) :
  parse_point element results =
  match point_of element with
  | Ok point => (results ++ [point], Ok tt)
  | Raise e => (results, Raise e)
  end.
Proof.
  unfold parse_point, point_of, lift, append, mbind, stateful_bind, res_bind.
  destruct (py_getitem element "geo") as [g|e]; [|done].
  destruct (py_index g 0) as [la|e]; [|done].
  destruct (py_index g 1) as [ln|e]; [|done].
  by destruct (py_get element "name" PNone) as [n|e].
Qed.

(** The loop stops at the first element it cannot turn into a point and
    keeps the points of the elements before it. *)
Lemma for_each_parse_point items (results : list AnitabiPoint) :
  ∃ before rest points,
    items = before ++ rest ∧
    Forall2 (λ element point, point_of element = Ok point) before points ∧
    match rest with
    | [] => for_each parse_point items results = (results ++ points, Ok tt)
    | bad :: _ =>
        ∃ e, point_of bad = Raise e ∧
             for_each parse_point items results = (results ++ points, Raise e)
    end.
Proof.
  revert results. induction items as [|x items IH]; intros results.
  - exists [], [], []. repeat split; [constructor|]. cbn. by rewrite app_nil_r.
  - assert (Hstep : for_each parse_point (x :: items) results =
              match point_of x with
              | Ok p => for_each parse_point items (results ++ [p])
              | Raise e => (results, Raise e)
              end).
    { cbn [for_each]. unfold mbind, stateful_bind.
      rewrite parse_point_point_of. by destruct (point_of x). }
    rewrite Hstep. clear Hstep.
    destruct (point_of x) as [p|e] eqn:Hp.
    + destruct (IH (results ++ [p])) as (before & rest & points & -> & Hall & Hrest).
      exists (x :: before), rest, (p :: points).
      split; [done|]. split; [by constructor|].
      rewrite <- app_assoc in Hrest. exact Hrest.
    + exists [], (x :: items), []. split; [done|]. split; [constructor|].
      exists e. by rewrite app_nil_r.
Qed.

(** X1.  The catalog client returns the empty list unless the reply has a
    2xx status and a body that decodes to an object whose [points] is a
    list: a transport error, another status, a body that is not JSON or
    not an object, and a [points] that is null, a number, a string or an
    object all give no point. *)
Theorem fetch_empty_unless_points_list reply :
  (∀ d items, decodes_to reply (PDict d) →
              dict_lookup "points" d ≠ Some (PList items)) →
  fetch_and_parse_points reply = [].
Proof.
  intros Hno.
  unfold fetch_and_parse_points, stateful_try, fetch_body, lift.
  unfold mbind, stateful_bind.
  destruct reply as [resp|e]; [|by destruct e].
  destruct (raise_for_status resp) as [[]|e] eqn:Hst; [|by destruct e].
  destruct (json resp) as [data|e] eqn:Hj; [|by destruct e].
  destruct data as [| | | | |l|d]; try done.
  assert (Hd : decodes_to (Ok resp) (PDict d)) by by exists resp.
  specialize (λ items, Hno d items Hd).
  cbn [py_get]. destruct (dict_lookup "points" d) as [pts|]; cbn.
  - destruct pts as [| | | |s|l|d']; try done.
    + destruct s as [|c s]; [done|].
      cbn. unfold mbind, stateful_bind. rewrite parse_point_point_of. done.
    + by destruct (Hno l).
    + destruct d' as [|[k v] d']; [done|].
      cbn. unfold mbind, stateful_bind. rewrite parse_point_point_of. done.
  - done.
Qed.

(** X2.  Whatever the elements of the [points] array are, the catalog
    client returns the points built from the elements of an initial part of
    the array, one per element and in order; the array goes on after that
    part only with an element on which the loop body raises. *)
Theorem fetch_returns_parsed_prefix reply d items :
  decodes_to reply (PDict d) →
  dict_lookup "points" d = Some (PList items) →
  ∃ before rest,
    items = before ++ rest ∧
    Forall2 (λ element point, point_of element = Ok point)
            before (fetch_and_parse_points reply) ∧
    match rest with
    | [] => True
    | bad :: _ => ∃ e, point_of bad = Raise e
    end.
Proof.
  intros Hr Hp. rewrite (fetch_decoded _ _ _ Hr Hp).
  destruct (for_each_parse_point items []) as (before & rest & points & -> & Hall & Hrest).
  exists before, rest. split; [done|].
  destruct rest as [|bad rest].
  - rewrite Hrest. by split.
  - destruct Hrest as (e & He & ->). split; [done|]. by exists e.
Qed.

Lemma point_of_accepted element point :
  accepted_point element point → point_of element = Ok point.
Proof.
  intros (d & la & ln & more & -> & Hg & ->).
  unfold point_of. cbn. by rewrite Hg.
Qed.

Lemma for_each_accepted items points (results : list AnitabiPoint) :
  Forall2 accepted_point items points →
  for_each parse_point items results = (results ++ points, Ok tt).
Proof.
  intros Hacc. revert results.
  induction Hacc as [|e p es ps He _ IH]; intros results; cbn.
  - by rewrite app_nil_r.
  - unfold mbind, stateful_bind.
    rewrite parse_point_point_of, (point_of_accepted _ _ He), IH.
    by rewrite <- app_assoc.
Qed.

(** X3.  The catalog client does not validate the elements beyond what it
    reads: an element without [name] gives a point whose name is [None],
    and the entries of a [geo] array after the second are ignored. *)
Theorem fetch_accepts_unvalidated reply d items points :
  decodes_to reply (PDict d) →
  dict_lookup "points" d = Some (PList items) →
  Forall2 accepted_point items points →
  fetch_and_parse_points reply = points.
Proof.
  intros Hr Hp Hacc.
  by rewrite (fetch_decoded _ _ _ Hr Hp), (for_each_accepted _ _ _ Hacc).
Qed.

(** ** More on the resolver and the orchestrator *)

(** X4.  The resolver either returns [None] or returns the panorama of a
    2xx reply that decodes to an object with status ["OK"], a [pano_id]
    and a [location] object: a transport error, another HTTP status, a
    body that is not JSON and a missing field never give a panorama and
    never raise. *)
Theorem get_google_pano_cases reply p :
  get_google_pano reply p = Ok None ∨
  ∃ d pid loc,
    decodes_to reply (PDict d) ∧
    dict_lookup "status" d = Some (PStr "OK") ∧
    dict_lookup "pano_id" d = Some pid ∧
    dict_lookup "location" d = Some (PDict loc) ∧
    get_google_pano reply p =
      Ok (Some (mkGooglePanoPoint
                  (mkPoint (default (lat p) (dict_lookup "lat" loc))
                           (default (lng p) (dict_lookup "lng" loc)))
                  pid)).
Proof.
  destruct (get_google_pano_returns reply p) as [[g|] Hg]; [|by left].
  right.
  destruct (get_google_pano_found _ _ _ Hg) as (d & loc & Hd & Hst & Hid & Hl & Hgeo).
  exists d, (pano_id g), loc. repeat split; try done.
  rewrite Hg. destruct g as [gg gid]. cbn in Hgeo. by rewrite Hgeo.
Qed.

(** One turn of the orchestrator: the first task and the first point, then
    the others with their tasks renumbered. *)
Lemma process_points_with_pano_cons client pt rest :
  process_points_with_pano client (pt :: rest) =
  o ← get_google_pano (client 0%nat) (geo pt);
  out ← process_points_with_pano (client ∘ S) rest;
  mret (pair_or_skip [] (pt, o) ++ out).
Proof.
  unfold process_points_with_pano. rewrite imap_cons. cbn [gather].
  destruct (get_google_pano (client 0%nat) (geo pt)) as [o|e]; [|done].
  cbn. destruct (gather (imap _ rest)) as [results|e]; [|done].
  cbn. by rewrite foldl_pair_or_skip.
Qed.

(** X5.  When every request is answered with a panorama the orchestrator
    drops nothing: the points of the records are the input points. *)
Theorem process_points_with_pano_all_resolved client points :
  (∀ i pt, points !! i = Some pt →
           ∃ g, get_google_pano (client i) (geo pt) = Ok (Some g)) →
  ∃ out, process_points_with_pano client points = Ok out ∧
         anitabi_point <$> out = points.
Proof.
  revert client. induction points as [|pt rest IH]; intros client Hall.
  - by exists [].
  - rewrite process_points_with_pano_cons.
    destruct (Hall 0%nat pt eq_refl) as [g Hg]. rewrite Hg. cbn.
    destruct (IH (client ∘ S)) as (out & Hout & Hpts).
    { intros i pt' Hi. by apply (Hall (S i)). }
    rewrite Hout. cbn. exists (mkRecord pt g :: out).
    split; [done|]. cbn. by rewrite Hpts.
Qed.

(** X6.  The orchestrator returns the empty list, without an error,
    exactly when no request for a point of the list is answered with a
    panorama. *)
Theorem process_points_with_pano_none_resolved client points :
  process_points_with_pano client points = Ok [] ↔
  ∀ i pt, points !! i = Some pt →
          get_google_pano (client i) (geo pt) = Ok None.
Proof.
  split.
  - intros Hout i pt Hpt.
    destruct (process_points_with_pano_pairs client points)
      as (out & idx & Hout' & _ & Hmem & Hpairs & _).
    rewrite Hout in Hout'. injection Hout' as <-.
    apply Forall2_nil_inv_r in Hpairs as ->.
    destruct (get_google_pano_returns (client i) (geo pt)) as [[g|] Hg]; [|done].
    assert (Hi : i ∈ @nil nat) by (apply Hmem; by exists pt, g).
    by apply elem_of_nil in Hi.
  - revert client. induction points as [|pt rest IH]; intros client Hnone; [done|].
    rewrite process_points_with_pano_cons, (Hnone 0%nat pt eq_refl). cbn.
    rewrite (IH (client ∘ S)); [done|].
    intros i pt' Hi. by apply (Hnone (S i)).
Qed.

(** X7.  The records of a list of points that is the concatenation of two
    lists are the records of the first list followed by the records of the
    second, the tasks of the second being numbered after those of the
    first. *)
Theorem process_points_with_pano_app client points1 points2 :
  process_points_with_pano client (points1 ++ points2) =
  out1 ← process_points_with_pano client points1;
  out2 ← process_points_with_pano (λ i, client (length points1 + i)%nat) points2;
  mret (out1 ++ out2).
Proof.
  revert client. induction points1 as [|pt rest IH]; intros client.
  - cbn [app length]. change (process_points_with_pano client []) with (Ok (@nil Rec)).
    cbn. by destruct (process_points_with_pano _ points2).
  - cbn [app]. rewrite !process_points_with_pano_cons, (IH (client ∘ S)).
    destruct (get_google_pano (client 0%nat) (geo pt)) as [o|e]; [|done].
    cbn. destruct (process_points_with_pano (client ∘ S) rest) as [out1|e]; [|done].
    cbn. destruct (process_points_with_pano _ points2) as [out2|e]; [|done].
    cbn. by rewrite app_assoc.
Qed.

(** X8.  The coordinates of the panorama of a record are those of the
    [location] of the reply to the request for the record's own point, the
    latitude or the longitude that [location] lacks being the one of that
    point. *)
Theorem records_coordinates client points :
  ∃ out,
    process_points_with_pano client points = Ok out ∧
    ∀ r, r ∈ out →
      ∃ i d loc,
        points !! i = Some (anitabi_point r) ∧
        decodes_to (client i) (PDict d) ∧
        dict_lookup "location" d = Some (PDict loc) ∧
        pano_geo (google_pano_point r) =
          mkPoint (default (lat (geo (anitabi_point r))) (dict_lookup "lat" loc))
                  (default (lng (geo (anitabi_point r))) (dict_lookup "lng" loc)).
Proof.
  destruct (process_points_with_pano_pairs client points)
    as (out & idx & Hout & _ & _ & Hpairs & _).
  exists out. split; [done|]. intros r Hr.
  apply list_elem_of_lookup in Hr as [k Hk].
  destruct (Forall2_lookup_r _ _ _ _ _ Hpairs Hk) as (i & _ & pt & g & Hpt & Hg & ->).
  destruct (get_google_pano_found _ _ _ Hg) as (d & loc & Hd & _ & _ & Hl & Hgeo).
  by exists i, d, loc.
Qed.

(** ** More on deduplication *)

(** X9.  On records whose identifier is a string, [Record.__eq__] is an
    equivalence relation and agrees with [Record.__hash__]: equal records
    have the same hash, as a set requires. *)
Theorem Record_eq_hash_contract a b c :
  str_keyed a → str_keyed b → str_keyed c →
  Record_eq a a = true ∧
  Record_eq a b = Record_eq b a ∧
  (Record_eq a b = true → Record_eq b c = true → Record_eq a c = true) ∧
  (Record_eq a b = true → Record_hash a = Record_hash b).
Proof.
  intros Ha Hb Hc. split; [by apply Record_eq_str|]. split.
  { destruct (Record_eq b a) eqn:Hba.
    - apply Record_eq_str in Hba; [|done..]. by apply Record_eq_str.
    - destruct (Record_eq a b) eqn:Hab; [|done].
      apply Record_eq_str in Hab; [|done..].
      symmetry in Hab. apply Record_eq_str in Hab; [|done..]. congruence. }
  split.
  - intros Hab%Record_eq_str Hbc%Record_eq_str; [|done..].
    apply Record_eq_str; [done..|]. congruence.
  - intros Hab%Record_eq_str; [|done..].
    unfold Record_hash, GooglePanoPoint_hash.
    fold (pano_key a) (pano_key b). by rewrite Hab.
Qed.

Lemma Record_hash_hashable r :
  hashable (pano_key r) → ∃ h, Record_hash r = Ok h.
Proof.
  unfold Record_hash, GooglePanoPoint_hash. fold (pano_key r).
  destruct (pano_key r); cbn; by eauto.
Qed.

Lemma Record_hash_unhashable r :
  ¬ hashable (pano_key r) → Record_hash r = Raise TypeError.
Proof.
  unfold Record_hash, GooglePanoPoint_hash. fold (pano_key r).
  destruct (pano_key r); cbn; try done; by intros [].
Qed.

Lemma hashable_dec v : hashable v ∨ ¬ hashable v.
Proof. destruct v; cbn; auto. Qed.

(** Building a set of hashable records adds some of them to the table,
    in their order, and the first of them when the table is empty. *)
Lemma set_update_hashable (s : pyset) records :
  Forall (λ r, hashable (pano_key r)) records →
  ∃ s' added,
    set_update s records = Ok s' ∧
    s'.*2 = s.*2 ++ added ∧
    added `sublist_of` records ∧
    (s = [] → ∀ r rest, records = r :: rest → r ∈ added).
Proof.
  intros Hrs. revert s.
  induction Hrs as [|r rest Hr _ IH]; intros s.
  - exists s, []. cbn. rewrite app_nil_r. repeat split; try done.
  - cbn [set_update]. unfold set_add.
    destruct (Record_hash_hashable r Hr) as [h Hh]. rewrite Hh. cbn.
    destruct (existsb _ s) eqn:Hex; cbn.
    + destruct (IH s) as (s' & added & Hs' & Hk & Hsub & _).
      exists s', added. repeat split; try done.
      * by apply sublist_cons.
      * intros ->. done.
    + destruct (IH (s ++ [(h, r)])) as (s' & added & Hs' & Hk & Hsub & _).
      exists s', (r :: added). split; [done|]. split.
      * rewrite Hk, fmap_app. cbn. by rewrite <- app_assoc.
      * split; [by apply sublist_skip|].
        intros _ r' rest' [= <- _]. apply elem_of_cons. by left.
Qed.

Lemma set_update_unhashable (s : pyset) records :
  Exists (λ r, ¬ hashable (pano_key r)) records →
  set_update s records = Raise TypeError.
Proof.
  intros Hex. revert s.
  induction records as [|r rest IH]; intros s; [by apply Exists_nil in Hex|].
  cbn [set_update]. unfold set_add.
  destruct (hashable_dec (pano_key r)) as [Hr|Hr].
  - destruct (Record_hash_hashable r Hr) as [h Hh]. rewrite Hh. cbn.
    apply Exists_cons in Hex as [Hex|Hex]; [done|].
    destruct (existsb _ s); cbn; by apply IH.
  - by rewrite (Record_hash_unhashable r Hr).
Qed.

(** X10.  Deduplicating records whose identifiers can all be hashed never
    fails and never invents a record: the result is, up to its order, a
    sublist of the input, and it holds the first record of the input. *)
Theorem deduplicate_hashable records :
  Forall (λ r, hashable (pano_key r)) records →
  ∃ out,
    deduplicate records = Ok out ∧
    out ⊆+ records ∧
    ∀ r rest, records = r :: rest → r ∈ out.
Proof using set_iter_order_perm.
  intros Hrs. unfold deduplicate, py_set, py_list.
  destruct (set_update_hashable [] records Hrs)
    as (s' & added & Hs' & Hk & Hsub & Hfirst).
  rewrite Hs'. cbn. cbn in Hk. rewrite Hk.
  exists (set_iter_order added). split; [done|]. split.
  - rewrite set_iter_order_perm. by apply sublist_submseteq.
  - intros r rest Hr. rewrite set_iter_order_perm. by eapply Hfirst.
Qed.

(** X11.  Deduplication raises [TypeError] as soon as one record has an
    identifier that cannot be hashed, a list or an object, whatever the
    other records are. *)
Theorem deduplicate_unhashable records :
  Exists (λ r, ¬ hashable (pano_key r)) records →
  deduplicate records = Raise TypeError.
Proof.
  intros Hex. unfold deduplicate, py_set.
  by rewrite (set_update_unhashable [] records Hex).
Qed.

(** ** More on the export and on the whole run *)



(** *** The writes *)










Lemma write_files_Ok o o' : write_files o = Ok o' → o' = o.
Proof.
  unfold write_files.
  destruct (csv_write_rows (csv_output o)) as [[]|e]; cbn; [|done].
  destruct (file_write (tuxun_output o)) as [[]|e]; cbn; [|done].
  by intros [= <-].
Qed.

(** The run of [main] after the requests: the records of the orchestrator
    are deduplicated and written. *)
Lemma main_stages catalog client :
  ∃ records,
    process_points_with_pano client
      (foldl (λ points_list bangumi_id,
                points_list ++ fetch_and_parse_points (catalog bangumi_id))
             [] BANGUMI_IDS) = Ok records ∧
    main catalog client = (out ← deduplicate records; write_files (export out)).
Proof.
  unfold main.
  destruct (process_points_with_pano_pairs client
              (foldl (λ points_list bangumi_id,
                        points_list ++ fetch_and_parse_points (catalog bangumi_id))
                     [] BANGUMI_IDS)) as (records & idx & Hrecords & _).
  exists records. split; [done|]. by rewrite Hrecords.
Qed.

Lemma main_Ok_export catalog client o :
  main catalog client = Ok o → ∃ records, o = export records.
Proof.
  destruct (main_stages catalog client) as (records & _ & ->).
  destruct (deduplicate records) as [out|e]; cbn; [|done].
  intros ->%write_files_Ok. by exists out.
Qed.

Lemma file_lines_urls records :
  Forall (λ r, str_mem "010" (GooglePanoPoint_url (google_pano_point r)) = false)
         records →
  file_lines (str_join newline
                ((λ r, GooglePanoPoint_url (google_pano_point r)) <$> records))
  = (λ r, GooglePanoPoint_url (google_pano_point r)) <$> records.
Proof.
  intros Hall. destruct records as [|r rest]; [done|].
  assert (Hlast : str_last
            (str_join newline
               ((λ r, GooglePanoPoint_url (google_pano_point r)) <$> r :: rest))
          = Some "s"%char).
  { apply str_last_join; [done|]. apply Forall_fmap, Forall_forall.
    intros r' _. apply url_last. }
  unfold file_lines.
  destruct (str_join newline _) eqn:Htext; [done|].
  rewrite <- Htext. apply str_split_join; [done|]. by apply Forall_fmap.
Qed.

(** C10, as the code has it.  Whenever a run writes its two files and no
    URL of the table holds a newline, the two files agree: the URL file,
    read line by line, has as many lines as the table has data rows, and
    its [i]-th line is the [google_maps_url] cell of the [i]-th data
    row. *)
Theorem main_url_lines_match_rows catalog client o :
  main catalog client = Ok o →
  (∀ row u, row ∈ csv_output o →
            csv_field "google_maps_url" row = Some (PStr u) →
            str_mem "010" u = false) →
  ∃ header rows,
    csv_output o = header :: rows ∧
    length (file_lines (tuxun_output o)) = length rows ∧
    Forall2 (λ line row, csv_field "google_maps_url" row = Some (PStr line))
            (file_lines (tuxun_output o)) rows.
Proof.
  intros [records ->]%main_Ok_export. rewrite export_spec.
  cbn [csv_output tuxun_output]. intros Hurls.
  assert (Hall : Forall (λ r, str_mem "010"
                   (GooglePanoPoint_url (google_pano_point r)) = false) records).
  { apply Forall_forall. intros r Hr.
    apply (Hurls (writerow fieldnames (rowdict_of r))); [|done].
    apply elem_of_cons. right.
    by apply (list_elem_of_fmap_2 (λ r, writerow fieldnames (rowdict_of r))). }
  rewrite (file_lines_urls records Hall).
  eexists _, _. split; [done|]. split; [by rewrite !length_fmap|].
  apply Forall2_fmap, Forall_Forall2_diag, Forall_forall.
  by intros r _.
Qed.


Lemma process_points_with_pano_unresolved client points :
  (∀ i p, get_google_pano (client i) p = Ok None) →
  process_points_with_pano client points = Ok [].
Proof.
  intros Hnone. revert client Hnone.
  induction points as [|pt rest IH]; intros client Hnone; [done|].
  rewrite process_points_with_pano_cons, Hnone. cbn.
  rewrite (IH (client ∘ S)); [done|]. intros i p. apply Hnone.
Qed.

(** X15.  When no work has a point, or no request for a panorama is
    answered with one, the run ends normally with a table that has only its
    header and an empty URL file. *)
Theorem main_nothing_found catalog client :
  (∀ bangumi_id, fetch_and_parse_points (catalog bangumi_id) = []) ∨
  (∀ i p, get_google_pano (client i) p = Ok None) →
  main catalog client =
    Ok (mkOutputs
          [[PStr "name"; PStr "anitabi_lat"; PStr "anitabi_lng"; PStr "pano_id";
            PStr "pano_lat"; PStr "pano_lng"; PStr "google_maps_url"]]
          "").
Proof using set_iter_order_perm.
  intros Hnothing. unfold main.
  assert (Hrecords : process_points_with_pano client
            (foldl (λ points_list bangumi_id,
                      points_list ++ fetch_and_parse_points (catalog bangumi_id))
                   [] BANGUMI_IDS) = Ok []).
  { destruct Hnothing as [Hcat|Hpano].
    - cbn. by rewrite !Hcat.
    - by apply process_points_with_pano_unresolved. }
  rewrite Hrecords. cbn.
  unfold deduplicate, py_list. cbn.
  pose proof (set_iter_order_perm []) as Hperm.
  apply Permutation_nil_r in Hperm. by rewrite Hperm.
Qed.



End Pipeline.

(** ** The statements on the sample replies *)

Lemma reversed_perm (l : list Rec) : reversed l ≡ₚ l.
Proof. apply reverse_Permutation. Qed.

Lemma fetch_well_formed_sample :
  decodes_to (ok_reply (PDict catalog_A)) (PDict catalog_A) ∧
  dict_lookup "points" catalog_A = Some (PList [element_A]) ∧
  Forall2 well_formed_point [element_A] [point_A] ∧
  fetch_and_parse_points (ok_reply (PDict catalog_A)) = [point_A] ∧
  length (fetch_and_parse_points (ok_reply (PDict catalog_A))) = length [element_A].
Proof.
  assert (H1 : decodes_to (ok_reply (PDict catalog_A)) (PDict catalog_A)).
  { eexists. repeat split; reflexivity. }
  assert (H2 : Forall2 well_formed_point [element_A] [point_A]).
  { repeat constructor. eexists _, _, _, _. repeat split; reflexivity. }
  split; [exact H1|]. split; [reflexivity|]. split; [exact H2|].
  exact (fetch_well_formed _ catalog_A [element_A] [point_A] H1 eq_refl H2).
Defined.

(** C3 fails as stated: a well-formed element before the element without
    [geo] is returned, the list is not empty. *)
Lemma fetch_missing_geo_not_empty :
  lacks_geo element_no_geo ∧
  element_no_geo ∈ [element_A; element_no_geo; element_A] ∧
  fetch_and_parse_points (ok_reply (PDict catalog_A_then_no_geo)) = [point_A] ∧
  fetch_and_parse_points (ok_reply (PDict catalog_A_then_no_geo)) ≠ [].
Proof.
  split; [by eexists|]. split; [rewrite !elem_of_cons; auto|]. split; [reflexivity|].
  discriminate.
Qed.

Lemma fetch_stops_at_missing_geo_sample :
  decodes_to (ok_reply (PDict catalog_A_then_no_geo)) (PDict catalog_A_then_no_geo) ∧
  Forall2 well_formed_point [element_A] [point_A] ∧
  lacks_geo element_no_geo ∧
  fetch_and_parse_points (ok_reply (PDict catalog_A_then_no_geo)) = [point_A].
Proof.
  assert (H1 : decodes_to (ok_reply (PDict catalog_A_then_no_geo))
                 (PDict catalog_A_then_no_geo)).
  { eexists. repeat split; reflexivity. }
  assert (H2 : Forall2 well_formed_point [element_A] [point_A]).
  { repeat constructor. eexists _, _, _, _. repeat split; reflexivity. }
  assert (H3 : lacks_geo element_no_geo).
  { eexists. split; reflexivity. }
  split; [exact H1|]. split; [exact H2|]. split; [exact H3|].
  exact (fetch_stops_at_missing_geo _ catalog_A_then_no_geo [element_A]
           element_no_geo [element_A] [point_A] H1 eq_refl H2 H3).
Defined.

Lemma get_google_pano_not_ok_sample :
  json (mkResponse 200 (Ok (PDict metadata_zero_results)))
    = Ok (PDict metadata_zero_results) ∧
  py_get (PDict metadata_zero_results) "status" PNone ≠ Ok (PStr "OK") ∧
  get_google_pano (ok_reply (PDict metadata_zero_results)) (geo point_A) = Ok None.
Proof.
  assert (H : py_get (PDict metadata_zero_results) "status" PNone ≠ Ok (PStr "OK")).
  { discriminate. }
  split; [reflexivity|]. split; [exact H|].
  exact (get_google_pano_not_ok (mkResponse 200 (Ok (PDict metadata_zero_results)))
           (PDict metadata_zero_results) (geo point_A) eq_refl H).
Defined.

(** C4 fails as stated: a response with status ["OK"] and a [pano_id] but no
    [location] gives no panorama, not one at the requested coordinates; nor
    does a response with status ["OK"] and no [pano_id]. *)
Lemma get_google_pano_ok_without_location :
  (dict_lookup "status" metadata_no_location = Some (PStr "OK") ∧
   dict_lookup "pano_id" metadata_no_location = Some (PStr "XYZ") ∧
   dict_lookup "location" metadata_no_location = None ∧
   get_google_pano (ok_reply (PDict metadata_no_location)) (geo point_A) = Ok None) ∧
  (dict_lookup "status" metadata_no_pano_id = Some (PStr "OK") ∧
   dict_lookup "pano_id" metadata_no_pano_id = None ∧
   get_google_pano (ok_reply (PDict metadata_no_pano_id)) (geo point_A) = Ok None).
Proof. repeat split; reflexivity. Qed.

Lemma get_google_pano_ok_sample :
  decodes_to (ok_reply (PDict metadata_XYZ)) (PDict metadata_XYZ) ∧
  get_google_pano (ok_reply (PDict metadata_XYZ)) (geo point_A) = Ok (Some pano_XYZ).
Proof.
  assert (H : decodes_to (ok_reply (PDict metadata_XYZ)) (PDict metadata_XYZ)).
  { eexists. repeat split; reflexivity. }
  split; [exact H|].
  exact (get_google_pano_ok _ metadata_XYZ (PStr "XYZ") location_XYZ (geo point_A)
           H eq_refl eq_refl eq_refl).
Defined.

(** C5 fails as stated: an answer with status ["OK"] and an empty [pano_id]
    yields a record whose identifier is the empty string. *)
Lemma record_with_empty_pano_id :
  process_points_with_pano (λ _, ok_reply (PDict metadata_empty_id)) [point_A]
  = Ok [mkRecord point_A
          (mkGooglePanoPoint (mkPoint (PFloat 35.5%float) (PFloat 139.25%float))
             (PStr ""))].
Proof. reflexivity. Qed.

Lemma set_keeps_first_inserted_sample :
  Forall str_keyed three_records ∧
  ∃ s, py_set length_hash zero_hash three_records = Ok s ∧
       ∀ r, r ∈ s.*2 ↔ ∃ i, first_with_key three_records i r.
Proof.
  assert (H : Forall str_keyed three_records).
  { repeat constructor; eexists; reflexivity. }
  split; [exact H|].
  exact (proj2 (set_keeps_first_inserted length_hash zero_hash) three_records H).
Defined.

Lemma deduplicate_one_per_pano_id_sample :
  Forall str_keyed three_records ∧
  ∃ out,
    deduplicate length_hash zero_hash reversed three_records = Ok out ∧
    (∀ r, r ∈ out → r ∈ three_records) ∧
    NoDup (pano_key <$> out) ∧
    (∀ k, k ∈ pano_key <$> out ↔ k ∈ pano_key <$> three_records) ∧
    (NoDup (pano_key <$> three_records) → length out = length three_records) ∧
    (∃ out', deduplicate length_hash zero_hash reversed out = Ok out' ∧ out' ≡ₚ out).
Proof.
  assert (H : Forall str_keyed three_records).
  { repeat constructor; eexists; reflexivity. }
  split; [exact H|].
  exact (deduplicate_one_per_pano_id length_hash zero_hash reversed reversed_perm
           three_records H).
Defined.

(** ** The further statements on the sample replies *)

Lemma fetch_empty_unless_points_list_sample :
  fetch_and_parse_points (Ok (mkResponse 404 (Ok (PDict catalog_A)))) = [].
Proof.
  apply fetch_empty_unless_points_list.
  intros d items (resp & [= <-] & Hst & _). discriminate Hst.
Defined.

Lemma fetch_returns_parsed_prefix_sample :
  decodes_to (ok_reply (PDict catalog_A_then_no_geo)) (PDict catalog_A_then_no_geo) ∧
  ∃ before rest,
    [element_A; element_no_geo; element_A] = before ++ rest ∧
    Forall2 (λ element point, point_of element = Ok point) before
      (fetch_and_parse_points (ok_reply (PDict catalog_A_then_no_geo))) ∧
    match rest with
    | [] => True
    | bad :: _ => ∃ e, point_of bad = Raise e
    end.
Proof.
  assert (H : decodes_to (ok_reply (PDict catalog_A_then_no_geo))
                (PDict catalog_A_then_no_geo)).
  { eexists. repeat split; reflexivity. }
  split; [exact H|].
  exact (fetch_returns_parsed_prefix _ catalog_A_then_no_geo _ H eq_refl).
Defined.

Lemma fetch_accepts_unvalidated_sample :
  decodes_to (ok_reply (PDict catalog_long_geo)) (PDict catalog_long_geo) ∧
  Forall2 accepted_point [element_long_geo] [point_unnamed] ∧
  fetch_and_parse_points (ok_reply (PDict catalog_long_geo)) = [point_unnamed].
Proof.
  assert (H1 : decodes_to (ok_reply (PDict catalog_long_geo)) (PDict catalog_long_geo)).
  { eexists. repeat split; reflexivity. }
  assert (H2 : Forall2 accepted_point [element_long_geo] [point_unnamed]).
  { repeat constructor. eexists _, _, _, _. repeat split; reflexivity. }
  split; [exact H1|]. split; [exact H2|].
  exact (fetch_accepts_unvalidated _ catalog_long_geo [element_long_geo]
           [point_unnamed] H1 eq_refl H2).
Defined.

Lemma process_points_with_pano_all_resolved_sample :
  ∃ out,
    process_points_with_pano (λ _, ok_reply (PDict metadata_XYZ)) [point_A; point_B]
      = Ok out ∧
    anitabi_point <$> out = [point_A; point_B].
Proof.
  apply process_points_with_pano_all_resolved.
  intros i pt _. eexists. reflexivity.
Defined.

Lemma Record_eq_hash_contract_sample :
  Record_eq (mkRecord point_A pano_SAME) (mkRecord point_A pano_SAME) = true ∧
  Record_eq (mkRecord point_A pano_SAME) (mkRecord point_B pano_SAME)
    = Record_eq (mkRecord point_B pano_SAME) (mkRecord point_A pano_SAME) ∧
  (Record_eq (mkRecord point_A pano_SAME) (mkRecord point_B pano_SAME) = true →
   Record_eq (mkRecord point_B pano_SAME) (mkRecord point_A pano_XYZ) = true →
   Record_eq (mkRecord point_A pano_SAME) (mkRecord point_A pano_XYZ) = true) ∧
  (Record_eq (mkRecord point_A pano_SAME) (mkRecord point_B pano_SAME) = true →
   Record_hash length_hash zero_hash (mkRecord point_A pano_SAME)
     = Record_hash length_hash zero_hash (mkRecord point_B pano_SAME)).
Proof.
  apply Record_eq_hash_contract; eexists; reflexivity.
Defined.

Lemma deduplicate_hashable_sample :
  Forall (λ r, hashable (pano_key r)) three_records ∧
  ∃ out,
    deduplicate length_hash zero_hash reversed three_records = Ok out ∧
    out ⊆+ three_records ∧
    ∀ r rest, three_records = r :: rest → r ∈ out.
Proof.
  assert (H : Forall (λ r, hashable (pano_key r)) three_records).
  { repeat constructor. }
  split; [exact H|].
  exact (deduplicate_hashable length_hash zero_hash reversed reversed_perm
           three_records H).
Defined.

Lemma deduplicate_unhashable_sample :
  Exists (λ r, ¬ hashable (pano_key r)) (three_records ++ [record_list_id]) ∧
  deduplicate length_hash zero_hash reversed (three_records ++ [record_list_id])
    = Raise TypeError.
Proof.
  assert (H : Exists (λ r, ¬ hashable (pano_key r)) (three_records ++ [record_list_id])).
  { apply Exists_app. right. constructor. intros []. }
  split; [exact H|].
  exact (deduplicate_unhashable length_hash zero_hash reversed _ H).
Defined.

Lemma tuxun_output_file_lines_sample :
  file_lines (tuxun_output (export quoted three_records))
  = (λ r, GooglePanoPoint_url quoted (google_pano_point r)) <$> three_records.
Proof.
  apply tuxun_output_file_lines. repeat constructor.
Defined.

Lemma main_nothing_found_sample :
  main quoted length_hash zero_hash reversed no_surrogate
       (λ _, Raise TransportError) (λ _, ok_reply (PDict metadata_XYZ))
  = Ok (mkOutputs
          [[PStr "name"; PStr "anitabi_lat"; PStr "anitabi_lng"; PStr "pano_id";
            PStr "pano_lat"; PStr "pano_lng"; PStr "google_maps_url"]]
          "").
Proof.
  apply (main_nothing_found quoted length_hash zero_hash reversed reversed_perm).
  left. reflexivity.
Defined.


(** A run in which a name holds a lone surrogate stops while the table is
    written. *)
Lemma main_unencodable_name :
  main quoted length_hash zero_hash reversed surrogate_255
       (λ _, ok_reply (PDict catalog_surrogate_name))
       (λ _, ok_reply (PDict metadata_XYZ))
  = Raise UnicodeEncodeError.
Proof. vm_compute. reflexivity. Qed.

(** C10 fails as stated: every work has the point ["A"] and every request
    is answered with an identifier that holds a newline; the table has one
    data row and the URL file two lines, the first of which is not the URL
    of the row. *)
Lemma url_file_lines_exceed_rows :
  main quoted length_hash zero_hash reversed no_surrogate
       (λ _, ok_reply (PDict catalog_A)) (λ _, ok_reply (PDict metadata_newline_id))
    = Ok (export quoted [mkRecord point_A pano_newline]) ∧
  length (tail (csv_output (export quoted [mkRecord point_A pano_newline]))) = 1%nat ∧
  length (file_lines (tuxun_output (export quoted [mkRecord point_A pano_newline])))
    = 2%nat ∧
  head (file_lines (tuxun_output (export quoted [mkRecord point_A pano_newline])))
    ≠ Some (GooglePanoPoint_url quoted pano_newline).
Proof.
  split; [vm_compute; reflexivity|]. split; [reflexivity|].
  split; [vm_compute; reflexivity|]. vm_compute. discriminate.
Qed.

Lemma main_url_lines_match_rows_sample :
  main quoted length_hash zero_hash reversed no_surrogate
       (λ _, ok_reply (PDict catalog_A)) (λ _, ok_reply (PDict metadata_XYZ))
    = Ok (export quoted [mkRecord point_A pano_XYZ]) ∧
  ∃ header rows,
    csv_output (export quoted [mkRecord point_A pano_XYZ]) = header :: rows ∧
    length (file_lines (tuxun_output (export quoted [mkRecord point_A pano_XYZ])))
      = length rows ∧
    Forall2 (λ line row, csv_field "google_maps_url" row = Some (PStr line))
            (file_lines (tuxun_output (export quoted [mkRecord point_A pano_XYZ])))
            rows.
Proof.
  assert (H : main quoted length_hash zero_hash reversed no_surrogate
                (λ _, ok_reply (PDict catalog_A)) (λ _, ok_reply (PDict metadata_XYZ))
              = Ok (export quoted [mkRecord point_A pano_XYZ])).
  { vm_compute. reflexivity. }
  split; [exact H|].
  apply (main_url_lines_match_rows quoted length_hash zero_hash reversed
           no_surrogate _ _ _ H).
  intros row u Hrow Hu.
  change (row ∈ [writeheader fieldnames;
                 writerow fieldnames (rowdict_of quoted (mkRecord point_A pano_XYZ))])
    in Hrow.
  apply elem_of_cons in Hrow as [->|Hrow].
  - vm_compute in Hu. injection Hu as <-. reflexivity.
  - apply list_elem_of_singleton in Hrow as ->.
    vm_compute in Hu. injection Hu as <-. reflexivity.
Defined.
